(** * Syntax classification of the Emmet plugin for CodeMirror 6

    A shallow embedding of [src/lib/syntax.ts]: the syntax tables, the
    lookup predicates, [syntaxInfo], [enabledForSyntax] and the functions
    deriving an abbreviation context from a resolved editor context,
    followed by the properties the specification states about them. *)

From Stdlib Require Import String Ascii List ZArith Bool Lia Sorted.
Import ListNotations.
Open Scope string_scope.
Open Scope list_scope.

(** ** JavaScript values and built-ins used by the module *)

Module JS.

(** An optional string argument ([syntax?: string]): [None] is
    [undefined]. *)
Definition value := option string.

(** Truthiness of a string-or-undefined value: [undefined] and the empty
    string are falsy, every other string is truthy. *)
Definition truthy (v : value) : bool :=
  match v with
  | Some s => negb (s =? "")
  | None => false
  end.

(** Truthiness of an object-or-undefined value: an object is truthy. *)
Definition isObject {A : Type} (v : option A) : bool :=
  match v with
  | Some _ => true
  | None => false
  end.

(** [Array.prototype.includes] on an array of strings. *)
Fixpoint includes (arr : list string) (x : string) : bool :=
  match arr with
  | [] => false
  | y :: rest => (y =? x) || includes rest x
  end.

(** [arr.includes(v)] where [v] may be [undefined]: an array of strings
    holds no [undefined]. *)
Definition includesValue (arr : list string) (v : value) : bool :=
  match v with
  | Some s => includes arr s
  | None => false
  end.

(** A value inside a template literal: [undefined] prints as the word. *)
Definition template (v : value) : string :=
  match v with
  | Some s => s
  | None => "undefined"
  end.

(** An index argument of [String.prototype.slice], made relative to a
    string of length [len]: negative indices count from the end. *)
Definition relativeIndex (len i : Z) : Z :=
  if (i <? 0)%Z then Z.max (len + i) 0 else Z.min i len.

(** [String.prototype.slice(start, end)]. *)
Definition slice (s : string) (start stop : Z) : string :=
  let len := Z.of_nat (String.length s) in
  let from := relativeIndex len start in
  let to := relativeIndex len stop in
  substring (Z.to_nat from) (Z.to_nat (Z.max (to - from) 0)) s.

End JS.

(** ** Syntax tables (lines 13-18) *)

Definition xmlSyntaxes : list string := ["xml"; "xsl"; "jsx"].
Definition htmlSyntaxes : list string := ["html"; "htmlmixed"; "vue"].
Definition cssSyntaxes : list string := ["css"; "scss"; "less"].
Definition jsxSyntaxes : list string := ["jsx"; "tsx"].
Definition markupSyntaxes : list string :=
  ["haml"; "jade"; "pug"; "slim"] ++ htmlSyntaxes ++ xmlSyntaxes ++ jsxSyntaxes.
Definition stylesheetSyntaxes : list string :=
  ["sass"; "sss"; "stylus"; "postcss"] ++ cssSyntaxes.

(** The abbreviation type of Emmet: ['markup' | 'stylesheet']. *)
Inductive SyntaxType : Type :=
  | markup
  | stylesheet.

(** The string a [SyntaxType] is at run time. *)
Definition syntaxTypeName (t : SyntaxType) : string :=
  match t with
  | markup => "markup"
  | stylesheet => "stylesheet"
  end.

(** ** Lookup predicates (lines 103-145) *)

Definition getSyntaxType (syntax : JS.value) : SyntaxType :=
  match syntax with
  | Some s =>
      if JS.truthy syntax && JS.includes stylesheetSyntaxes s
      then stylesheet else markup
  | None => markup
  end.

Definition isXML (syntax : JS.value) : bool :=
  match syntax with
  | Some s => if JS.truthy syntax then JS.includes xmlSyntaxes s else false
  | None => false
  end.

Definition isHTML (syntax : JS.value) : bool :=
  match syntax with
  | Some s =>
      if JS.truthy syntax
      then JS.includes htmlSyntaxes s || isXML syntax
      else false
  | None => false
  end.

(** The parameter is declared [string], the guard also covers a caller
    passing [undefined]. *)
Definition isSupported (syntax : JS.value) : bool :=
  match syntax with
  | Some s =>
      if JS.truthy syntax
      then JS.includes markupSyntaxes s || JS.includes stylesheetSyntaxes s
      else false
  | None => false
  end.

Definition isCSS (syntax : JS.value) : bool :=
  match syntax with
  | Some s => if JS.truthy syntax then JS.includes cssSyntaxes s else false
  | None => false
  end.

Definition isJSX (syntax : JS.value) : bool :=
  match syntax with
  | Some s => if JS.truthy syntax then JS.includes jsxSyntaxes s else false
  | None => false
  end.

(** ** Data model (lines 20-53 and the types the module imports) *)

(** One enclosing tag or selector: [{ name, range: [start, end] }]. *)
Record AncestorNode : Type := mkAncestorNode {
  an_name : string;
  an_range : Z * Z
}.

Inductive TokenType : Type :=
  | Selector
  | PropertyName
  | PropertyValue
  | BlockEnd.

Definition TokenType_eqb (a b : TokenType) : bool :=
  match a, b with
  | Selector, Selector
  | PropertyName, PropertyName
  | PropertyValue, PropertyValue
  | BlockEnd, BlockEnd => true
  | _, _ => false
  end.

Inductive CSSAbbreviationScope : Type :=
  | ScopeGlobal
  | ScopeSection
  | ScopeProperty
  | ScopeValue.

(** The string value of each member of the [CSSAbbreviationScope] enum. *)
Definition scopeName (s : CSSAbbreviationScope) : string :=
  match s with
  | ScopeGlobal => "@@global"
  | ScopeSection => "@@section"
  | ScopeProperty => "@@property"
  | ScopeValue => "@@value"
  end.

(** The token under the cursor of a CSS context: [{ type, range }]. *)
Record CSSToken : Type := mkCSSToken {
  tok_type : TokenType;
  tok_range : Z * Z
}.

(** [{ type: 'css', ancestors, inline?, current? }]; the [type] tag is the
    constructor of [Context] below. *)
Record CSSContext : Type := mkCSSContext {
  css_ancestors : list AncestorNode;
  css_inline : option bool;
  css_current : option CSSToken
}.

(** [{ type: 'html', ancestors, css? }]. *)
Record HTMLContext : Type := mkHTMLContext {
  html_ancestors : list AncestorNode;
  html_css : option CSSContext
}.

(** [HTMLContext | CSSContext], told apart by the [type] field. *)
Inductive Context : Type :=
  | HTML (ctx : HTMLContext)
  | CSS (ctx : CSSContext).

(** The second argument of [syntaxInfo]:
    [ctx?: number | HTMLContext | CSSContext]. *)
Inductive ContextArg : Type :=
  | ArgAbsent
  | ArgPos (pos : Z)
  | ArgContext (ctx : Context).

Record SyntaxInfo : Type := mkSyntaxInfo {
  si_type : SyntaxType;
  si_syntax : JS.value;
  si_inline : option bool;
  si_context : option Context
}.

(** [EnableForSyntax]: a boolean or an array of syntax and type tags. *)
Inductive EnableForSyntax : Type :=
  | EnableBool (b : bool)
  | EnableList (tags : list string).

(** A node of the Lezer syntax tree with its link to the parent; the root
    has no parent. *)
#[local] Set Warnings "-register-all".
Inductive SyntaxNode : Type :=
  | mkSyntaxNode (name : string) (from to : Z) (parent : option SyntaxNode).

Definition node_name (n : SyntaxNode) : string :=
  match n with mkSyntaxNode name _ _ _ => name end.

Definition node_parent (n : SyntaxNode) : option SyntaxNode :=
  match n with mkSyntaxNode _ _ _ parent => parent end.

(** What [syntaxTree(state)] offers to this module: [resolve(pos, side)]. *)
Record Tree : Type := mkTree {
  resolve : Z -> Z -> SyntaxNode
}.

(** The languages the [language] facet is compared with, and any other. *)
Inductive Language : Type :=
  | cssLanguage
  | htmlLanguage
  | otherLanguage (id : nat).

(** The part of [EditorState] the module reads: the value of the
    [language] facet ([null] when no language is configured) and the
    syntax tree. *)
Record EditorState : Type := mkEditorState {
  facet_language : option Language;
  syntaxTree : Tree
}.

(** An attribute as the HTML matcher's scanner yields it. *)
Record AttributeToken : Type := mkAttributeToken {
  attr_name : string;
  attr_value : JS.value;
  attr_nameStart : Z;
  attr_nameEnd : Z;
  attr_valueStart : option Z;
  attr_valueEnd : option Z
}.

(** Attributes of an abbreviation context: name to value, in order. *)
Definition AttributeMap : Type := list (string * JS.value).

(** Emmet's [AbbreviationContext]: [{ name, attributes? }]. *)
Record AbbreviationContext : Type := mkAbbreviationContext {
  ac_name : string;
  ac_attributes : option AttributeMap
}.

(** Modelled from the spec: the helper [last] of [./utils], which is not
    part of the sources at hand; the last element of an ancestor sequence
    is the innermost one, and an empty sequence has none. *)
Fixpoint last {A : Type} (arr : list A) : option A :=
  match arr with
  | [] => None
  | [x] => Some x
  | _ :: rest => last rest
  end.

(** ** [docSyntax] and [syntaxInfo] (lines 64-98) *)

Definition docSyntax (state : EditorState) : string :=
  match facet_language state with
  | Some cssLanguage => "css"
  | Some htmlLanguage => "html"
  | _ => ""
  end.

Section SyntaxInfo.

(** The context resolver of [./context], used as a black box. *)
Variable getContext : EditorState -> Z -> option Context.

(** Line 67: a position is resolved, a context is taken as given. *)
Definition resolveContext (state : EditorState) (ctx : ContextArg)
  : option Context :=
  match ctx with
  | ArgPos pos => getContext state pos
  | ArgContext c => Some c
  | ArgAbsent => None
  end.

Definition syntaxInfo (state : EditorState) (ctx : ContextArg) : SyntaxInfo :=
  let syntax := docSyntax state in
  let inline : option bool := None in
  let context := resolveContext state ctx in
  let '(inline, syntax, context) :=
    match context with
    | Some (HTML h) =>
        match html_css h with
        | Some css => (Some true, "css", Some (CSS css))
        | None => (inline, syntax, context)
        end
    | Some (CSS _) => (inline, "css", context)
    | None => (inline, syntax, context)
    end in
  {| si_type := getSyntaxType (Some syntax);
     si_syntax := Some syntax;
     si_inline := inline;
     si_context := context |}.

End SyntaxInfo.

(** ** [enabledForSyntax] (lines 150-165) *)

Definition candidates (info : SyntaxInfo) : list JS.value :=
  let base := [Some (syntaxTypeName (si_type info)); si_syntax info] in
  match si_inline info with
  | Some true =>
      base ++ [Some (syntaxTypeName (si_type info) ++ "-inline")%string;
               Some (JS.template (si_syntax info) ++ "-inline")%string]
  | _ => base
  end.

Definition enabledForSyntax (opt : EnableForSyntax) (info : SyntaxInfo) : bool :=
  match opt with
  | EnableBool true => true
  | EnableList tags => existsb (fun c => JS.includesValue tags c) (candidates info)
  | EnableBool false => false
  end.

(** ** [getEmbeddedStyleSyntax] (lines 170-179) *)

Section EmbeddedStyle.

(** [attributes] of [@emmetio/html-matcher]: the attributes scanned
    from the source of an open tag, in source order. *)
Variable attributes : string -> string -> list AttributeToken.

(** [attributeValue] of [./utils]. *)
Variable attributeValue : AttributeToken -> JS.value.

(** The [for ... of] loop of lines 173-177: the first attribute named
    [type] ends the function. *)
Fixpoint typeAttribute (attrs : list AttributeToken) : JS.value :=
  match attrs with
  | [] => None
  | attr :: rest =>
      if attr_name attr =? "type" then attributeValue attr
      else typeAttribute rest
  end.

Definition getEmbeddedStyleSyntax (code : string) (ctx : HTMLContext)
  : JS.value :=
  match last (html_ancestors ctx) with
  | Some parent =>
      if an_name parent =? "style" then
        typeAttribute
          (attributes
             (JS.slice code (fst (an_range parent)) (snd (an_range parent)))
             (an_name parent))
      else None
  | None => None
  end.

End EmbeddedStyle.

(** ** [getMarkupAbbreviationContext] (lines 184-199) *)

(** The loop of lines 188-190: climb the parent links until a node named
    [OpenTag] or past the root. *)
Fixpoint findOpenTag (node : SyntaxNode) : option SyntaxNode :=
  match node with
  | mkSyntaxNode name _ _ parent =>
      if negb (name =? "OpenTag") then
        match parent with
        | Some p => findOpenTag p
        | None => None
        end
      else Some node
  end.

(** A node followed by its parent, grandparent, ... up to the root. *)
Fixpoint parentChain (node : SyntaxNode) : list SyntaxNode :=
  match node with
  | mkSyntaxNode _ _ _ parent =>
      node :: match parent with
              | Some p => parentChain p
              | None => []
              end
  end.

Section MarkupContext.

(** [getTagAttributes] of [./utils]. *)
Variable getTagAttributes : EditorState -> SyntaxNode -> AttributeMap.

Definition getMarkupAbbreviationContext (state : EditorState) (ctx : HTMLContext)
  : option AbbreviationContext :=
  match last (html_ancestors ctx) with
  | Some parent =>
      let node := findOpenTag (resolve (syntaxTree state) (fst (an_range parent)) 1) in
      Some {| ac_name := an_name parent;
              ac_attributes :=
                Some match node with
                     | Some n => getTagAttributes state n
                     | None => []
                     end |}
  | None => None
  end.

End MarkupContext.

(** ** [getStylesheetAbbreviationContext] (lines 204-222) *)

Definition getStylesheetAbbreviationContext (ctx : CSSContext) : AbbreviationContext :=
  match css_inline ctx with
  | Some true => {| ac_name := scopeName ScopeProperty; ac_attributes := None |}
  | _ =>
      let parent := last (css_ancestors ctx) in
      let scope := scopeName ScopeGlobal in
      let scope :=
        match css_current ctx with
        | Some current =>
            match TokenType_eqb (tok_type current) PropertyValue, parent with
            | true, Some p => an_name p
            | _, _ =>
                if (TokenType_eqb (tok_type current) Selector
                    || TokenType_eqb (tok_type current) PropertyName)
                   && negb (JS.isObject parent)
                then scopeName ScopeSection
                else scope
            end
        | None => scope
        end in
      {| ac_name := scope; ac_attributes := None |}
  end.

(** ** Sample inputs *)

(** The value [{ name }] a stylesheet scope is returned as. *)
Definition stylesheetScope (name : string) : AbbreviationContext :=
  {| ac_name := name; ac_attributes := None |}.

Definition sample_css_context : CSSContext :=
  {| css_ancestors := [];
     css_inline := None;
     css_current := Some {| tok_type := PropertyValue; tok_range := (5, 8)%Z |} |}.

Definition sample_html_context : HTMLContext :=
  {| html_ancestors := [ {| an_name := "div"; an_range := (0, 20)%Z |} ];
     html_css := Some sample_css_context |}.

Definition sample_document : SyntaxNode :=
  mkSyntaxNode "Document" 0 100 None.

Definition sample_element : SyntaxNode :=
  mkSyntaxNode "Element" 0 33 (Some sample_document).

Definition sample_open_tag : SyntaxNode :=
  mkSyntaxNode "OpenTag" 0 22 (Some sample_element).

Definition sample_start_tag : SyntaxNode :=
  mkSyntaxNode "StartTag" 0 1 (Some sample_open_tag).

(** An HTML document whose tree has an open tag at the start. *)
Definition sample_state : EditorState :=
  {| facet_language := Some htmlLanguage;
     syntaxTree := {| resolve := fun _ _ => sample_start_tag |} |}.

(** A document whose tree is a root node only. *)
Definition sample_plain_state : EditorState :=
  {| facet_language := None;
     syntaxTree := {| resolve := fun _ _ => sample_document |} |}.

Definition sample_tag_attributes (_ : EditorState) (node : SyntaxNode)
  : AttributeMap :=
  [("type", Some "text/scss")].

Definition sample_code : string := "<style type=text/scss>a{}</style>".

Definition sample_type_attribute : AttributeToken :=
  {| attr_name := "type"; attr_value := Some "text/scss";
     attr_nameStart := 7; attr_nameEnd := 11;
     attr_valueStart := Some 12%Z; attr_valueEnd := Some 21%Z |}.

Definition sample_media_attribute : AttributeToken :=
  {| attr_name := "media"; attr_value := Some "screen";
     attr_nameStart := 7; attr_nameEnd := 12;
     attr_valueStart := Some 13%Z; attr_valueEnd := Some 19%Z |}.

(** A scanner that knows two open tags. *)
Definition sample_attributes (src name : string) : list AttributeToken :=
  if src =? "<style type=text/scss>" then
    [sample_media_attribute; sample_type_attribute]
  else if src =? "<style media=screen>" then [sample_media_attribute]
  else [].

Definition sample_style_context : HTMLContext :=
  {| html_ancestors := [ {| an_name := "html"; an_range := (0, 0)%Z |};
                         {| an_name := "style"; an_range := (0, 22)%Z |} ];
     html_css := None |}.

Definition sample_div_context : HTMLContext :=
  {| html_ancestors := [ {| an_name := "div"; an_range := (0, 22)%Z |} ];
     html_css := None |}.

Definition sample_root_context : HTMLContext :=
  {| html_ancestors := []; html_css := None |}.

Definition sample_inline_css : CSSContext :=
  {| css_ancestors := [ {| an_name := ".foo"; an_range := (0, 10)%Z |} ];
     css_inline := Some true;
     css_current := None |}.

Definition sample_value_css : CSSContext :=
  {| css_ancestors := [ {| an_name := ".foo"; an_range := (0, 10)%Z |} ];
     css_inline := None;
     css_current := Some {| tok_type := PropertyValue; tok_range := (5, 8)%Z |} |}.

Definition sample_selector_css : CSSContext :=
  {| css_ancestors := [];
     css_inline := Some false;
     css_current := Some {| tok_type := Selector; tok_range := (0, 2)%Z |} |}.

Definition sample_blockend_css : CSSContext :=
  {| css_ancestors := [];
     css_inline := None;
     css_current := Some {| tok_type := BlockEnd; tok_range := (0, 1)%Z |} |}.

(** ** Tab stops of an expanded snippet (the expand command, lines 228-327) *)

(** A JavaScript string as its UTF-16 code units; the tab stop markers lie
    outside the range of an 8-bit character. *)
Definition ustring : Type := list N.

(** [String.fromCodePoint(0xFFF0)] and [String.fromCodePoint(0xFFF1)]:
    one code unit each. *)
Definition tabStopStart : ustring := [0xFFF0%N].
Definition tabStopEnd : ustring := [0xFFF1%N].

(** Strict equality of two strings. *)
Fixpoint ustring_eqb (a b : ustring) : bool :=
  match a, b with
  | [], [] => true
  | x :: a', y :: b' => N.eqb x y && ustring_eqb a' b'
  | _, _ => false
  end.

(** [s.charAt(i)]: the empty string outside the string. *)
Definition charAt (s : ustring) (i : nat) : ustring :=
  match nth_error s i with
  | Some c => [c]
  | None => []
  end.

(** [s.slice(start, stop)] for indices that are not negative. *)
Definition uslice (s : ustring) (start stop : nat) : ustring :=
  firstn (stop - start) (skipn start s).

(** [s.slice(start)] for an index that is not negative. *)
Definition usliceFrom (s : ustring) (start : nat) : ustring :=
  skipn start s.

(** [TextRange] of [@emmetio/action-utils]: [[from, to]]. *)
Definition TextRange : Type := (Z * Z)%type.

(** [sel[1] = v] where [sel] is the range object stored at index [k] of
    the array of ranges. *)
Fixpoint setEnd (k : nat) (v : Z) (ranges : list TextRange) : list TextRange :=
  match ranges, k with
  | [], _ => []
  | (a, _) :: rest, O => (a, v) :: rest
  | r :: rest, S k' => r :: setEnd k' v rest
  end.

(** The state of one call of the callback [field()] returns: the captured
    variable [handled]. *)
Definition fieldInit : Z := (-1)%Z.

(** One call [(index, placeholder) => ...] of the callback of lines
    283-292, with the value of [handled] before and after. *)
Definition fieldCall (handled : Z) (index : Z) (placeholder : ustring)
  : ustring * Z :=
  if (handled =? -1)%Z || (handled =? index)%Z then
    let handled := index in
    (match placeholder with
     | _ :: _ => tabStopStart ++ placeholder ++ tabStopEnd
     | [] => tabStopStart
     end, handled)
  else
    (match placeholder with
     | _ :: _ => placeholder
     | [] => []
     end, handled).

(** The callback called for each field of an abbreviation in turn. *)
Fixpoint fieldCalls (handled : Z) (calls : list (Z * ustring))
  : list ustring * Z :=
  match calls with
  | [] => ([], handled)
  | (index, placeholder) :: rest =>
      let '(out, handled) := fieldCall handled index placeholder in
      let '(outs, handled) := fieldCalls handled rest in
      (out :: outs, handled)
  end.

(** The variables of [getSelectionsFromSnippet]; [sel] is the index in
    [ranges] of the range object it refers to. *)
Record ScanState : Type := mkScanState {
  sc_ranges : list TextRange;
  sc_result : ustring;
  sc_sel : option nat;
  sc_offset : nat;
  sc_i : nat
}.

(** The body of the loop of lines 307-321. *)
Definition scanStep (snippet : ustring) (base : Z) (st : ScanState) : ScanState :=
  let ch := charAt snippet (sc_i st) in
  let i := S (sc_i st) in
  if ustring_eqb ch tabStopStart || ustring_eqb ch tabStopEnd then
    let result := sc_result st ++ uslice snippet (sc_offset st) (i - 1) in
    let offset := i in
    if ustring_eqb ch tabStopStart then
      let pos := (base + Z.of_nat (List.length result))%Z in
      {| sc_ranges := sc_ranges st ++ [(pos, pos)];
         sc_result := result;
         sc_sel := Some (List.length (sc_ranges st));
         sc_offset := offset;
         sc_i := i |}
    else
      match sc_sel st with
      | Some k =>
          {| sc_ranges :=
               setEnd k (base + Z.of_nat (List.length result))%Z (sc_ranges st);
             sc_result := result;
             sc_sel := None;
             sc_offset := offset;
             sc_i := i |}
      | None =>
          {| sc_ranges := sc_ranges st;
             sc_result := result;
             sc_sel := None;
             sc_offset := offset;
             sc_i := i |}
      end
  else
    {| sc_ranges := sc_ranges st;
       sc_result := sc_result st;
       sc_sel := sc_sel st;
       sc_offset := sc_offset st;
       sc_i := i |}.

(** [while (i < snippet.length) ...], for at most [fuel] rounds. *)
Fixpoint scanLoop (fuel : nat) (snippet : ustring) (base : Z) (st : ScanState)
  : ScanState :=
  match fuel with
  | O => st
  | S fuel' =>
      if (sc_i st <? List.length snippet)%nat
      then scanLoop fuel' snippet base (scanStep snippet base st)
      else st
  end.

Definition scanInit : ScanState :=
  {| sc_ranges := []; sc_result := []; sc_sel := None;
     sc_offset := 0; sc_i := 0 |}.

(** [getSelectionsFromSnippet(snippet, base = 0)]: each round moves [i]
    one step on, so the length of the snippet bounds the rounds. *)
Definition getSelectionsFromSnippet (snippet : ustring) (base : option Z)
  : list TextRange * ustring :=
  let base := match base with Some b => b | None => 0%Z end in
  let st := scanLoop (List.length snippet) snippet base scanInit in
  (sc_ranges st, sc_result st ++ usliceFrom snippet (sc_offset st)).

(** Whether a code unit is one of the two tab stop markers. *)
Definition isTabStop (c : N) : bool :=
  N.eqb c 0xFFF0 || N.eqb c 0xFFF1.

(** The scan of the characters left of a snippet, with the text kept so
    far in one piece; the loop above is compared with it. *)
Fixpoint scanChars (base : Z) (chars : ustring) (ranges : list TextRange)
         (out : ustring) (sel : option nat) : list TextRange * ustring :=
  match chars with
  | [] => (ranges, out)
  | c :: rest =>
      let pos := (base + Z.of_nat (List.length out))%Z in
      if N.eqb c 0xFFF0 then
        scanChars base rest (ranges ++ [(pos, pos)]) out
                  (Some (List.length ranges))
      else if N.eqb c 0xFFF1 then
        match sel with
        | Some k => scanChars base rest (setEnd k pos ranges) out None
        | None => scanChars base rest ranges out None
        end
      else scanChars base rest ranges (out ++ [c]) sel
  end.

(** Ranges in document order that do not overlap. *)
Definition rangeBefore (r1 r2 : TextRange) : Prop := (snd r1 <= fst r2)%Z.

(** A range moved by [d]. *)
Definition shiftRange (d : Z) (r : TextRange) : TextRange :=
  (fst r + d, snd r + d)%Z.

(** A placeholder between the two markers, or the start marker alone for
    an empty placeholder: what the callback gives for the field it
    handles. *)
Definition markedField (placeholder : ustring) : ustring :=
  match placeholder with
  | _ :: _ => tabStopStart ++ placeholder ++ tabStopEnd
  | [] => tabStopStart
  end.

(** A range that lies in a text of [len] characters inserted at [base]. *)
Definition rangeWithin (base : Z) (len : nat) (r : TextRange) : Prop :=
  (base <= fst r)%Z /\ (fst r <= snd r)%Z /\ (snd r <= base + Z.of_nat len)%Z.

(** The insertion point of a snippet: [base = 0] when not given. *)
Definition defaultBase (base : option Z) : Z :=
  match base with Some b => b | None => 0%Z end.

(** * Properties *)

(** ** Array membership *)

Lemma includes_In (arr : list string) (x : string) :
  JS.includes arr x = true <-> In x arr.
Proof.
  induction arr as [| y rest IH]; simpl.
  - split; [discriminate | contradiction].
  - rewrite orb_true_iff, IH, String.eqb_eq. tauto.
Qed.

Lemma includes_not_In (arr : list string) (x : string) :
  JS.includes arr x = false <-> ~ In x arr.
Proof.
  rewrite <- includes_In. destruct (JS.includes arr x).
  - split; [discriminate | intros H; now elim H].
  - split; [intros _; discriminate | reflexivity].
Qed.

Lemma truthy_nonempty (s : string) :
  JS.truthy (Some s) = true <-> s <> "".
Proof.
  unfold JS.truthy. rewrite negb_true_iff. apply String.eqb_neq.
Qed.

Lemma nonempty_of_In (arr : list string) (s : string) :
  JS.includes arr "" = false -> In s arr -> JS.truthy (Some s) = true.
Proof.
  intros Hno Hin. apply truthy_nonempty. intros ->.
  apply includes_not_In in Hno. contradiction.
Qed.

(** ** The syntax tables *)

Lemma stylesheetSyntaxes_members :
  stylesheetSyntaxes = ["sass"; "sss"; "stylus"; "postcss"; "css"; "scss"; "less"].
Proof. reflexivity. Qed.

Lemma markupSyntaxes_members :
  markupSyntaxes =
  ["haml"; "jade"; "pug"; "slim"; "html"; "htmlmixed"; "vue";
   "xml"; "xsl"; "jsx"; "jsx"; "tsx"].
Proof. reflexivity. Qed.

(** ** [getSyntaxType] *)

(** C3: the seven stylesheet syntaxes are classified ['stylesheet'], and
    every other argument, the empty string and [undefined] among them, is
    classified ['markup']. *)
Theorem getSyntaxType_classifies (syntax : JS.value) :
  stylesheetSyntaxes
    = ["sass"; "sss"; "stylus"; "postcss"; "css"; "scss"; "less"] /\
  (forall s, syntax = Some s -> In s stylesheetSyntaxes ->
             getSyntaxType syntax = stylesheet) /\
  ((forall s, syntax = Some s -> ~ In s stylesheetSyntaxes) ->
   getSyntaxType syntax = markup) /\
  getSyntaxType (Some "") = markup /\
  getSyntaxType None = markup.
Proof.
  split; [reflexivity |].
  split; [| split; [| split; reflexivity]].
  - intros s -> Hin. unfold getSyntaxType.
    rewrite (nonempty_of_In stylesheetSyntaxes s eq_refl Hin).
    apply includes_In in Hin. now rewrite Hin.
  - intros Hout. destruct syntax as [s |]; [| reflexivity].
    unfold getSyntaxType.
    specialize (Hout s eq_refl). apply includes_not_In in Hout.
    rewrite Hout. now rewrite andb_false_r.
Qed.

Lemma getSyntaxType_classifies_witness :
  getSyntaxType (Some "scss") = stylesheet /\
  getSyntaxType (Some "html") = markup.
Proof.
  split.
  - apply (proj1 (proj2 (getSyntaxType_classifies (Some "scss"))) "scss").
    + reflexivity.
    + simpl; tauto.
  - apply (proj1 (proj2 (proj2 (getSyntaxType_classifies (Some "html"))))).
    intros s Hs. injection Hs as <-. apply includes_not_In. reflexivity.
Defined.

(** ** [isHTML] *)

(** C4: [isHTML] is membership in [htmlSyntaxes] or being an XML dialect;
    it holds of [xml], [xsl] and [jsx], and fails for the empty and the
    absent syntax name. *)
Theorem isHTML_html_or_xml :
  (forall s : string,
     isHTML (Some s) = JS.includes htmlSyntaxes s || isXML (Some s)) /\
  isHTML None = JS.includesValue htmlSyntaxes None || isXML None /\
  xmlSyntaxes = ["xml"; "xsl"; "jsx"] /\
  (forall s, In s xmlSyntaxes -> isHTML (Some s) = true) /\
  isHTML None = false /\
  isHTML (Some "") = false.
Proof.
  repeat split.
  - intros s. unfold isHTML. destruct (JS.truthy (Some s)) eqn:Ht; [reflexivity |].
    unfold isXML. rewrite Ht.
    assert (s = "") as ->.
    { unfold JS.truthy in Ht. apply negb_false_iff in Ht.
      now apply String.eqb_eq. }
    reflexivity.
  - intros s Hin. unfold isHTML, isXML.
    rewrite (nonempty_of_In xmlSyntaxes s eq_refl Hin).
    apply includes_In in Hin. rewrite Hin. apply orb_true_r.
Qed.

Lemma isHTML_html_or_xml_witness : isHTML (Some "xsl") = true.
Proof.
  apply (proj1 (proj2 (proj2 (proj2 isHTML_html_or_xml))) "xsl").
  simpl; tauto.
Defined.

(** ** Disjointness of the two classifications *)

(** C8: no syntax name is both in [markupSyntaxes] and in
    [stylesheetSyntaxes]; a markup name is classified ['markup'] and a
    stylesheet name ['stylesheet']. *)
Theorem markup_stylesheet_disjoint (s : string) :
  (In s markupSyntaxes ->
   ~ In s stylesheetSyntaxes /\ getSyntaxType (Some s) = markup) /\
  (In s stylesheetSyntaxes ->
   ~ In s markupSyntaxes /\ getSyntaxType (Some s) = stylesheet).
Proof.
  split; intros Hin.
  - assert (~ In s stylesheetSyntaxes) as Hout.
    { apply includes_not_In. simpl in Hin.
      repeat (destruct Hin as [<- | Hin]; [reflexivity |]). contradiction. }
    split; [exact Hout |].
    apply (proj1 (proj2 (proj2 (getSyntaxType_classifies (Some s))))).
    intros s' Hs'. injection Hs' as <-. exact Hout.
  - split.
    + apply includes_not_In. simpl in Hin.
      repeat (destruct Hin as [<- | Hin]; [reflexivity |]). contradiction.
    + now apply (proj1 (proj2 (getSyntaxType_classifies (Some s))) s).
Qed.

Lemma markup_stylesheet_disjoint_witness :
  (~ In "jsx" stylesheetSyntaxes /\ getSyntaxType (Some "jsx") = markup) /\
  (~ In "less" markupSyntaxes /\ getSyntaxType (Some "less") = stylesheet).
Proof.
  split.
  - apply (proj1 (markup_stylesheet_disjoint "jsx")). simpl; tauto.
  - apply (proj2 (markup_stylesheet_disjoint "less")). simpl; tauto.
Defined.

(** ** Absent and empty syntax names *)

(** C9: each of the five lookup predicates answers [false] for an absent
    and for an empty syntax name. *)
Theorem lookups_reject_absent_and_empty :
  Forall (fun lookup : JS.value -> bool =>
            lookup None = false /\ lookup (Some "") = false)
         [isXML; isHTML; isCSS; isJSX; isSupported].
Proof.
  repeat constructor.
Qed.

(** ** [syntaxInfo] *)

Section SyntaxInfoProperties.

Variable getContext : EditorState -> Z -> option Context.

(** C1: the override rule of [syntaxInfo].  For the context given or
    resolved: an HTML context with a nested CSS context gives an inline
    stylesheet position whose context is the nested one; a CSS context
    forces the syntax [css] and leaves [inline] unset; in every other
    case the syntax stays that of the document. *)
Theorem syntaxInfo_override (state : EditorState) (ctx : ContextArg) :
  let context := resolveContext getContext state ctx in
  let info := syntaxInfo getContext state ctx in
  (forall h css,
      context = Some (HTML h) -> html_css h = Some css ->
      info = {| si_type := stylesheet;
                si_syntax := Some "css";
                si_inline := Some true;
                si_context := Some (CSS css) |}) /\
  (forall c,
      context = Some (CSS c) ->
      si_syntax info = Some "css" /\ si_inline info = None) /\
  ((forall c, context <> Some (CSS c)) ->
   (forall h, context = Some (HTML h) -> html_css h = None) ->
   si_syntax info = Some (docSyntax state)).
Proof.
  intros context info. subst info. unfold syntaxInfo. fold context.
  destruct context as [[h | c] |] eqn:Hctx.
  - repeat split.
    + intros h' css Hh Hcss. injection Hh as <-. now rewrite Hcss.
    + discriminate.
    + discriminate.
    + intros _ Hnone. now rewrite (Hnone h eq_refl).
  - repeat split.
    + discriminate.
    + intros Hno _. now elim (Hno c).
  - repeat split; discriminate.
Qed.

End SyntaxInfoProperties.

Lemma syntaxInfo_override_witness :
  syntaxInfo (fun _ _ => None) sample_state (ArgContext (HTML sample_html_context))
  = {| si_type := stylesheet;
       si_syntax := Some "css";
       si_inline := Some true;
       si_context := Some (CSS sample_css_context) |}
  /\ (si_syntax (syntaxInfo (fun _ _ => Some (CSS sample_css_context))
                            sample_state (ArgPos 7)) = Some "css"
      /\ si_inline (syntaxInfo (fun _ _ => Some (CSS sample_css_context))
                               sample_state (ArgPos 7)) = None)
  /\ si_syntax (syntaxInfo (fun _ _ => None) sample_state ArgAbsent)
     = Some "html".
Proof.
  split; [| split].
  - apply (proj1 (syntaxInfo_override (fun _ _ => None) sample_state
                    (ArgContext (HTML sample_html_context)))
             sample_html_context sample_css_context); reflexivity.
  - apply (proj1 (proj2 (syntaxInfo_override
                           (fun _ _ => Some (CSS sample_css_context))
                           sample_state (ArgPos 7)))
             sample_css_context); reflexivity.
  - apply (proj2 (proj2 (syntaxInfo_override (fun _ _ => None)
                           sample_state ArgAbsent))); simpl; discriminate.
Defined.

(** ** [getStylesheetAbbreviationContext] *)

(** C2: the scope of a CSS context.  An inline context always has scope
    [@@property]; otherwise the scope is the innermost ancestor's name for
    a property value under an ancestor, [@@section] for a selector or a
    property name at top level, and [@@global] in every other case. *)
Theorem getStylesheetAbbreviationContext_scope (ctx : CSSContext) :
  let result := getStylesheetAbbreviationContext ctx in
  let parent := last (css_ancestors ctx) in
  (css_inline ctx = Some true -> result = stylesheetScope "@@property") /\
  (css_inline ctx <> Some true ->
   (forall current p,
       css_current ctx = Some current ->
       tok_type current = PropertyValue ->
       parent = Some p ->
       result = stylesheetScope (an_name p)) /\
   (forall current,
       css_current ctx = Some current ->
       tok_type current = Selector \/ tok_type current = PropertyName ->
       parent = None ->
       result = stylesheetScope "@@section") /\
   (~ (exists current p,
          css_current ctx = Some current /\
          tok_type current = PropertyValue /\ parent = Some p) ->
    ~ (exists current,
          css_current ctx = Some current /\
          (tok_type current = Selector \/ tok_type current = PropertyName) /\
          parent = None) ->
    result = stylesheetScope "@@global")).
Proof.
  intros result parent. subst result. unfold getStylesheetAbbreviationContext.
  fold parent. split.
  - intros ->. reflexivity.
  - intros Hinline.
    assert (forall r : AbbreviationContext,
               match css_inline ctx with
               | Some true => stylesheetScope "@@property"
               | _ => r
               end = r) as Hskip.
    { intros r. destruct (css_inline ctx) as [[|] |]; congruence. }
    unfold stylesheetScope in Hskip. simpl scopeName. rewrite Hskip.
    clear Hskip Hinline. unfold stylesheetScope.
    split; [| split].
    + intros current p -> -> ->. reflexivity.
    + intros current -> [-> | ->] ->; reflexivity.
    + intros Hvalue Hsection.
      destruct (css_current ctx) as [current |]; [| reflexivity].
      destruct (tok_type current) eqn:Htype, parent as [p |] eqn:Hparent;
        simpl; try reflexivity.
      * elim Hsection. exists current. auto.
      * elim Hsection. exists current. auto.
      * elim Hvalue. exists current, p. auto.
Qed.

Lemma getStylesheetAbbreviationContext_scope_witness :
  getStylesheetAbbreviationContext sample_inline_css
  = stylesheetScope "@@property"
  /\ getStylesheetAbbreviationContext sample_value_css
     = stylesheetScope ".foo"
  /\ getStylesheetAbbreviationContext sample_selector_css
     = stylesheetScope "@@section"
  /\ getStylesheetAbbreviationContext sample_blockend_css
     = stylesheetScope "@@global".
Proof.
  split; [| split; [| split]].
  - apply (proj1 (getStylesheetAbbreviationContext_scope sample_inline_css)).
    reflexivity.
  - assert (css_inline sample_value_css <> Some true) as Hn by discriminate.
    apply (proj1 (proj2 (getStylesheetAbbreviationContext_scope sample_value_css) Hn)
             {| tok_type := PropertyValue; tok_range := (5, 8)%Z |}
             {| an_name := ".foo"; an_range := (0, 10)%Z |});
      reflexivity.
  - assert (css_inline sample_selector_css <> Some true) as Hn by discriminate.
    apply (proj1 (proj2 (proj2 (getStylesheetAbbreviationContext_scope
                                  sample_selector_css) Hn))
             {| tok_type := Selector; tok_range := (0, 2)%Z |});
      [reflexivity | left; reflexivity | reflexivity].
  - assert (css_inline sample_blockend_css <> Some true) as Hn by discriminate.
    apply (proj2 (proj2 (proj2 (getStylesheetAbbreviationContext_scope
                                  sample_blockend_css) Hn))).
    + intros (current & p & _ & _ & Hp). discriminate Hp.
    + intros (current & Hc & [Ht | Ht] & _); simpl in Hc;
        injection Hc as <-; discriminate Ht.
Defined.

(** ** [enabledForSyntax] *)

Lemma includesValue_In (tags : list string) (v : JS.value) :
  JS.includesValue tags v = true <-> exists s, v = Some s /\ In s tags.
Proof.
  destruct v as [s |]; simpl.
  - rewrite includes_In. split.
    + intros Hin. now exists s.
    + intros (s' & Hs & Hin). now injection Hs as ->.
  - split; [discriminate | intros (s & Hs & _); discriminate].
Qed.

(** C5: the option [true] enables a feature everywhere; an array enables
    it exactly when it holds one of the candidate tags: the type, the
    syntax and, for an inline position only, these two with the suffix
    [-inline]. *)
Theorem enabledForSyntax_candidates (info : SyntaxInfo) :
  enabledForSyntax (EnableBool true) info = true /\
  forall opt : list string,
    enabledForSyntax (EnableList opt) info = true <->
    (In (syntaxTypeName (si_type info)) opt \/
     (exists s, si_syntax info = Some s /\ In s opt) \/
     (si_inline info = Some true /\
      (In (syntaxTypeName (si_type info) ++ "-inline")%string opt \/
       In (JS.template (si_syntax info) ++ "-inline")%string opt))).
Proof.
  split; [reflexivity |].
  intros opt. unfold enabledForSyntax, candidates.
  destruct (si_inline info) as [[|] |]; simpl;
    rewrite ?orb_true_iff, ?includes_In, includesValue_In.
  all: intuition (try discriminate; auto).
Qed.

Lemma enabledForSyntax_candidates_witness :
  enabledForSyntax (EnableList ["css-inline"])
    {| si_type := stylesheet; si_syntax := Some "css";
       si_inline := Some true; si_context := None |} = true.
Proof.
  apply (proj2 (enabledForSyntax_candidates
                  {| si_type := stylesheet; si_syntax := Some "css";
                     si_inline := Some true; si_context := None |})
           ["css-inline"]).
  right; right. split; [reflexivity |]. right. simpl. left. reflexivity.
Defined.

(** The sample calls the specification lists for [enabledForSyntax]. *)
Example enabledForSyntax_samples :
  enabledForSyntax (EnableList ["css-inline"])
    {| si_type := stylesheet; si_syntax := Some "css";
       si_inline := Some true; si_context := None |} = true /\
  enabledForSyntax (EnableList ["css"])
    {| si_type := stylesheet; si_syntax := Some "css";
       si_inline := Some false; si_context := None |} = true /\
  enabledForSyntax (EnableList ["scss"])
    {| si_type := stylesheet; si_syntax := Some "css";
       si_inline := Some true; si_context := None |} = false /\
  enabledForSyntax (EnableList ["undefined-inline"])
    {| si_type := markup; si_syntax := None;
       si_inline := Some true; si_context := None |} = true.
Proof. repeat split. Qed.

(** C10: an option that is neither [true] nor an array disables the
    feature for every position. *)
Theorem enabledForSyntax_other_option (opt : EnableForSyntax) (info : SyntaxInfo) :
  opt <> EnableBool true ->
  (forall tags, opt <> EnableList tags) ->
  enabledForSyntax opt info = false.
Proof.
  intros Htrue Harray. destruct opt as [[|] | tags].
  - now elim Htrue.
  - reflexivity.
  - now elim (Harray tags).
Qed.

Lemma enabledForSyntax_other_option_witness :
  enabledForSyntax (EnableBool false)
    {| si_type := stylesheet; si_syntax := Some "css";
       si_inline := Some true; si_context := None |} = false.
Proof.
  apply enabledForSyntax_other_option; discriminate.
Defined.

(** ** [getEmbeddedStyleSyntax] *)

Lemma slice_within (code : string) (start stop : Z) :
  (0 <= start <= stop)%Z -> (stop <= Z.of_nat (String.length code))%Z ->
  JS.slice code start stop
  = substring (Z.to_nat start) (Z.to_nat stop - Z.to_nat start) code.
Proof.
  intros Hle Hlen. unfold JS.slice, JS.relativeIndex.
  destruct (Z.ltb_spec start 0); [lia |].
  destruct (Z.ltb_spec stop 0); [lia |].
  rewrite !Z.min_l by lia. rewrite Z.max_l by lia.
  f_equal. lia.
Qed.

Section EmbeddedStyleProperties.

Variable attributes : string -> string -> list AttributeToken.
Variable attributeValue : AttributeToken -> JS.value.

Lemma typeAttribute_none (attrs : list AttributeToken) :
  Forall (fun a => attr_name a <> "type") attrs ->
  typeAttribute attributeValue attrs = None.
Proof.
  induction 1 as [| a rest Ha _ IH]; simpl; [reflexivity |].
  apply String.eqb_neq in Ha. now rewrite Ha.
Qed.

Lemma typeAttribute_first (before after : list AttributeToken)
      (attr : AttributeToken) :
  Forall (fun a => attr_name a <> "type") before ->
  attr_name attr = "type" ->
  typeAttribute attributeValue (before ++ attr :: after) = attributeValue attr.
Proof.
  intros Hbefore Hattr.
  induction Hbefore as [| a rest Ha _ IH]; simpl.
  - now rewrite Hattr.
  - apply String.eqb_neq in Ha. now rewrite Ha.
Qed.

(** C6: [getEmbeddedStyleSyntax] gives the value of the first [type]
    attribute scanned from the slice of the innermost ancestor when that
    ancestor is named [style]; it gives nothing when there is no
    ancestor, when the innermost one is not named [style], and when the
    scanned attributes hold no [type].  For a range inside the text the
    slice is the text from [range[0]] up to [range[1]], the latter
    excluded. *)
Theorem getEmbeddedStyleSyntax_type_attribute (code : string) (ctx : HTMLContext) :
  let result := getEmbeddedStyleSyntax attributes attributeValue code ctx in
  (last (html_ancestors ctx) = None -> result = None) /\
  (forall parent,
      last (html_ancestors ctx) = Some parent ->
      let attrs :=
        attributes
          (JS.slice code (fst (an_range parent)) (snd (an_range parent)))
          "style" in
      ((0 <= fst (an_range parent) <= snd (an_range parent))%Z ->
       (snd (an_range parent) <= Z.of_nat (String.length code))%Z ->
       JS.slice code (fst (an_range parent)) (snd (an_range parent))
       = substring (Z.to_nat (fst (an_range parent)))
                   (Z.to_nat (snd (an_range parent))
                    - Z.to_nat (fst (an_range parent))) code) /\
      (an_name parent <> "style" -> result = None) /\
      (an_name parent = "style" ->
       Forall (fun a => attr_name a <> "type") attrs ->
       result = None) /\
      (an_name parent = "style" ->
       forall before attr after,
         attrs = before ++ attr :: after ->
         Forall (fun a => attr_name a <> "type") before ->
         attr_name attr = "type" ->
         result = attributeValue attr)).
Proof.
  intros result. subst result. unfold getEmbeddedStyleSyntax. split.
  - intros ->. reflexivity.
  - intros parent Hlast. rewrite Hlast. cbv zeta. split; [| split; [| split]].
    + apply slice_within.
    + intros Hname. apply String.eqb_neq in Hname. now rewrite Hname.
    + intros Hname Hnone. rewrite Hname. simpl.
      now apply typeAttribute_none.
    + intros Hname before attr after Hattrs Hbefore Hattr.
      rewrite Hname. simpl. rewrite Hattrs.
      now apply typeAttribute_first.
Qed.

End EmbeddedStyleProperties.

Lemma getEmbeddedStyleSyntax_type_attribute_witness :
  getEmbeddedStyleSyntax sample_attributes attr_value sample_code
    sample_root_context = None
  /\ getEmbeddedStyleSyntax sample_attributes attr_value sample_code
       sample_div_context = None
  /\ getEmbeddedStyleSyntax sample_attributes attr_value
       "<style media=screen>a{}</style>" sample_style_context = None
  /\ getEmbeddedStyleSyntax sample_attributes attr_value sample_code
       sample_style_context = Some "text/scss".
Proof.
  split; [| split; [| split]].
  - apply (proj1 (getEmbeddedStyleSyntax_type_attribute
                    sample_attributes attr_value sample_code sample_root_context)).
    reflexivity.
  - apply (proj1 (proj2 (proj2 (getEmbeddedStyleSyntax_type_attribute
                                  sample_attributes attr_value sample_code
                                  sample_div_context)
                           {| an_name := "div"; an_range := (0, 22)%Z |}
                           eq_refl))).
    discriminate.
  - apply (proj1 (proj2 (proj2 (proj2 (getEmbeddedStyleSyntax_type_attribute
                                         sample_attributes attr_value
                                         "<style media=screen>a{}</style>"
                                         sample_style_context)
                                  {| an_name := "style"; an_range := (0, 22)%Z |}
                                  eq_refl)))).
    + reflexivity.
    + repeat constructor; discriminate.
  - apply (proj2 (proj2 (proj2 (proj2 (getEmbeddedStyleSyntax_type_attribute
                                         sample_attributes attr_value sample_code
                                         sample_style_context)
                                  {| an_name := "style"; an_range := (0, 22)%Z |}
                                  eq_refl)))
             eq_refl [sample_media_attribute] sample_type_attribute []).
    + reflexivity.
    + repeat constructor; discriminate.
    + reflexivity.
Defined.

(** ** [getMarkupAbbreviationContext] *)

Lemma SyntaxNode_parent_ind (P : SyntaxNode -> Prop) :
  (forall name from to, P (mkSyntaxNode name from to None)) ->
  (forall name from to p, P p -> P (mkSyntaxNode name from to (Some p))) ->
  forall node, P node.
Proof.
  intros Hroot Hchild. fix IH 1.
  intros [name from to [p |]].
  - apply Hchild, IH.
  - apply Hroot.
Qed.

Lemma findOpenTag_none (node : SyntaxNode) :
  Forall (fun n => node_name n <> "OpenTag") (parentChain node) ->
  findOpenTag node = None.
Proof.
  induction node as [name from to | name from to p IH] using SyntaxNode_parent_ind;
    intros Hall; inversion Hall as [| n rest Hn Hrest]; subst; simpl in *;
    apply String.eqb_neq in Hn; rewrite Hn; simpl; auto.
Qed.

Lemma findOpenTag_first (node : SyntaxNode) :
  forall below tag above,
    parentChain node = below ++ tag :: above ->
    Forall (fun n => node_name n <> "OpenTag") below ->
    node_name tag = "OpenTag" ->
    findOpenTag node = Some tag.
Proof.
  induction node as [name from to | name from to p IH] using SyntaxNode_parent_ind;
    intros below tag above Hchain Hbelow Htag.
  - destruct below as [| b below]; simpl in Hchain.
    + injection Hchain as <- _. simpl in Htag. simpl. now rewrite Htag.
    + injection Hchain as _ Hnil. now destruct below.
  - destruct below as [| b below]; simpl in Hchain.
    + injection Hchain as <- _. simpl in Htag. simpl. now rewrite Htag.
    + injection Hchain as <- Hrest.
      inversion Hbelow as [| n rest Hn Hbelow']; subst.
      simpl in Hn. apply String.eqb_neq in Hn. simpl. rewrite Hn. simpl.
      now apply (IH below tag above).
Qed.

Section MarkupContextProperties.

Variable getTagAttributes : EditorState -> SyntaxNode -> AttributeMap.

(** C7: without ancestors [getMarkupAbbreviationContext] gives nothing;
    otherwise it gives the innermost ancestor's name with the attributes
    of the first node named [OpenTag] on the way from the node resolved
    at the ancestor's start up to the root, or with no attributes when
    that way holds no such node. *)
Theorem getMarkupAbbreviationContext_nearest_open_tag
        (state : EditorState) (ctx : HTMLContext) :
  let result := getMarkupAbbreviationContext getTagAttributes state ctx in
  (last (html_ancestors ctx) = None -> result = None) /\
  (forall parent,
      last (html_ancestors ctx) = Some parent ->
      let way :=
        parentChain (resolve (syntaxTree state) (fst (an_range parent)) 1) in
      (forall below tag above,
          way = below ++ tag :: above ->
          Forall (fun n => node_name n <> "OpenTag") below ->
          node_name tag = "OpenTag" ->
          result = Some {| ac_name := an_name parent;
                           ac_attributes := Some (getTagAttributes state tag) |}) /\
      (Forall (fun n => node_name n <> "OpenTag") way ->
       result = Some {| ac_name := an_name parent;
                        ac_attributes := Some [] |})).
Proof.
  intros result. subst result. unfold getMarkupAbbreviationContext. split.
  - intros ->. reflexivity.
  - intros parent Hlast. rewrite Hlast. cbv zeta. split.
    + intros below tag above Hway Hbelow Htag.
      now rewrite (findOpenTag_first _ below tag above Hway Hbelow Htag).
    + intros Hnone. now rewrite (findOpenTag_none _ Hnone).
Qed.

End MarkupContextProperties.

Lemma getMarkupAbbreviationContext_nearest_open_tag_witness :
  getMarkupAbbreviationContext sample_tag_attributes sample_state
    sample_root_context = None
  /\ getMarkupAbbreviationContext sample_tag_attributes sample_state
       sample_style_context
     = Some {| ac_name := "style";
               ac_attributes := Some [("type", Some "text/scss")] |}
  /\ getMarkupAbbreviationContext sample_tag_attributes sample_plain_state
       sample_div_context
     = Some {| ac_name := "div"; ac_attributes := Some [] |}.
Proof.
  split; [| split].
  - apply (proj1 (getMarkupAbbreviationContext_nearest_open_tag
                    sample_tag_attributes sample_state sample_root_context)).
    reflexivity.
  - apply (proj1 (proj2 (getMarkupAbbreviationContext_nearest_open_tag
                           sample_tag_attributes sample_state
                           sample_style_context)
                    {| an_name := "style"; an_range := (0, 22)%Z |} eq_refl)
             [sample_start_tag] sample_open_tag
             [sample_element; sample_document]).
    + reflexivity.
    + repeat constructor; discriminate.
    + reflexivity.
  - apply (proj2 (proj2 (getMarkupAbbreviationContext_nearest_open_tag
                           sample_tag_attributes sample_plain_state
                           sample_div_context)
                    {| an_name := "div"; an_range := (0, 22)%Z |} eq_refl)).
    repeat constructor; discriminate.
Defined.

(** * Further properties of the classifier *)

(** ** Dialects, support and abbreviation type *)

Ltac by_members H tac :=
  apply includes_In in H;
  cbv [markupSyntaxes stylesheetSyntaxes xmlSyntaxes htmlSyntaxes
       cssSyntaxes jsxSyntaxes app In] in H;
  repeat (destruct H as [<- | H]; [tac |]);
  try contradiction.

Ltac by_eval := repeat split; reflexivity.

Ltac guarded syntax s Ht H :=
  destruct syntax as [s |]; [| discriminate];
  cbn [isXML isHTML isCSS isJSX isSupported] in H;
  destruct (JS.truthy (Some s)) eqn:Ht; [| discriminate].

(** X1: a syntax name a dialect predicate accepts is supported, and its
    abbreviation type is [stylesheet] for a CSS dialect and [markup] for
    an HTML, XML or JSX dialect. *)
Theorem dialect_is_supported (syntax : JS.value) :
  (isCSS syntax = true ->
   isSupported syntax = true /\ getSyntaxType syntax = stylesheet) /\
  (isHTML syntax = true ->
   isSupported syntax = true /\ getSyntaxType syntax = markup) /\
  (isXML syntax = true ->
   isHTML syntax = true /\ getSyntaxType syntax = markup) /\
  (isJSX syntax = true ->
   isSupported syntax = true /\ getSyntaxType syntax = markup).
Proof.
  split; [| split; [| split]]; intros H; guarded syntax s Ht H.
  - by_members H by_eval.
  - apply orb_true_iff in H. destruct H as [H | H].
    + by_members H by_eval.
    + by_members H by_eval.
  - by_members H by_eval.
  - by_members H by_eval.
Qed.

Lemma dialect_is_supported_witness :
  (isSupported (Some "scss") = true /\ getSyntaxType (Some "scss") = stylesheet)
  /\ (isSupported (Some "vue") = true /\ getSyntaxType (Some "vue") = markup)
  /\ (isHTML (Some "xsl") = true /\ getSyntaxType (Some "xsl") = markup)
  /\ (isSupported (Some "tsx") = true /\ getSyntaxType (Some "tsx") = markup).
Proof.
  split; [| split; [| split]].
  - apply (proj1 (dialect_is_supported (Some "scss"))). reflexivity.
  - apply (proj1 (proj2 (dialect_is_supported (Some "vue")))). reflexivity.
  - apply (proj1 (proj2 (proj2 (dialect_is_supported (Some "xsl"))))).
    reflexivity.
  - apply (proj2 (proj2 (proj2 (dialect_is_supported (Some "tsx"))))).
    reflexivity.
Defined.

(** X2: no name is both a CSS dialect and an HTML or JSX dialect, and
    [jsx] is the one name that is both a JSX and an HTML dialect. *)
Theorem dialects_overlap_only_at_jsx (syntax : JS.value) :
  (isCSS syntax = true -> isHTML syntax = false /\ isJSX syntax = false) /\
  (isJSX syntax = true /\ isHTML syntax = true <-> syntax = Some "jsx").
Proof.
  split.
  - intros H. guarded syntax s Ht H. by_members H by_eval.
  - split.
    + intros [H Hhtml]. guarded syntax s Ht H.
      revert Hhtml.
      by_members H ltac:(intros Hhtml; first [reflexivity | discriminate Hhtml]).
    + intros ->. split; reflexivity.
Qed.

Lemma dialects_overlap_only_at_jsx_witness :
  (isHTML (Some "less") = false /\ isJSX (Some "less") = false)
  /\ (isJSX (Some "jsx") = true /\ isHTML (Some "jsx") = true).
Proof.
  split.
  - apply (proj1 (dialects_overlap_only_at_jsx (Some "less"))). reflexivity.
  - apply (proj2 (dialects_overlap_only_at_jsx (Some "jsx"))). reflexivity.
Defined.

(** X3: the abbreviation type [stylesheet] is only given to a supported
    syntax name, so an unsupported name always has type [markup]. *)
Theorem stylesheet_type_is_supported (syntax : JS.value) :
  getSyntaxType syntax = stylesheet ->
  isSupported syntax = true /\ isHTML syntax = false /\ isJSX syntax = false.
Proof.
  intros H. destruct syntax as [s |]; [| discriminate].
  unfold getSyntaxType in H.
  destruct (JS.truthy (Some s)) eqn:Ht; [| discriminate].
  destruct (JS.includes stylesheetSyntaxes s) eqn:Hin; [| discriminate].
  clear H. by_members Hin by_eval.
Qed.

Lemma stylesheet_type_is_supported_witness :
  isSupported (Some "stylus") = true /\ isHTML (Some "stylus") = false
  /\ isJSX (Some "stylus") = false.
Proof.
  apply stylesheet_type_is_supported. reflexivity.
Defined.

(** ** [docSyntax] and [syntaxInfo] *)

Lemma docSyntax_values (state : EditorState) :
  docSyntax state = "css" \/ docSyntax state = "html" \/ docSyntax state = "".
Proof.
  unfold docSyntax. destruct (facet_language state) as [[| | id] |]; auto.
Qed.

Section SyntaxInfoInvariants.

Variable getContext : EditorState -> Z -> option Context.

(** X4: whatever the document and the context, the syntax [syntaxInfo]
    returns is [css], [html] or the empty name, and its type is
    [stylesheet] exactly when the syntax is [css]. *)
Theorem syntaxInfo_syntax_and_type (state : EditorState) (ctx : ContextArg) :
  let info := syntaxInfo getContext state ctx in
  (si_syntax info = Some "css" \/ si_syntax info = Some "html"
   \/ si_syntax info = Some "") /\
  (si_type info = stylesheet <-> si_syntax info = Some "css") /\
  (si_type info = markup <-> si_syntax info <> Some "css").
Proof.
  intros info. subst info. unfold syntaxInfo.
  destruct (resolveContext getContext state ctx) as [[h | c] |];
    [destruct (html_css h) as [css |] | |]; cbn;
    try (destruct (docSyntax_values state) as [-> | [-> | ->]]; cbn);
    (split; [tauto |]); split; split;
      try reflexivity; try discriminate; try congruence.
Qed.

(** X5: [syntaxInfo] marks a position inline exactly when the context is
    an HTML context with a nested CSS context; it never sets [inline] to
    [false], an inline position always carries a CSS context, and the
    context returned is never an HTML context that has a nested CSS
    context. *)
Theorem syntaxInfo_inline (state : EditorState) (ctx : ContextArg) :
  let info := syntaxInfo getContext state ctx in
  (si_inline info = Some true <->
   exists h css,
     resolveContext getContext state ctx = Some (HTML h) /\
     html_css h = Some css) /\
  si_inline info <> Some false /\
  (si_inline info = Some true ->
   exists css, si_context info = Some (CSS css)) /\
  (forall h, si_context info = Some (HTML h) -> html_css h = None).
Proof.
  intros info. subst info. unfold syntaxInfo.
  destruct (resolveContext getContext state ctx) as [[h | c] |] eqn:Hctx;
    [destruct (html_css h) as [css |] eqn:Hcss | |]; cbn.
  - repeat split; try discriminate.
    + intros _. now exists h, css.
    + intros _. now exists css.
  - repeat split; try discriminate.
    + intros (h' & css & Hh & Hcss'). injection Hh as <-. congruence.
    + intros h' Hh. injection Hh as <-. exact Hcss.
  - repeat split; try discriminate.
    intros (h' & css & Hh & _). discriminate.
  - repeat split; try discriminate.
    intros (h' & css & Hh & _). discriminate.
Qed.

(** X6: classifying the context [syntaxInfo] returned once more gives the
    same type, syntax and context, with [inline] unset.  The inline flag
    of a nested CSS context is therefore lost on the second pass. *)
Theorem syntaxInfo_again (state : EditorState) (ctx : ContextArg) (c : Context) :
  let info := syntaxInfo getContext state ctx in
  si_context info = Some c ->
  syntaxInfo getContext state (ArgContext c)
  = {| si_type := si_type info;
       si_syntax := si_syntax info;
       si_inline := None;
       si_context := Some c |}.
Proof.
  intros info. subst info. unfold syntaxInfo.
  destruct (resolveContext getContext state ctx) as [[h | c'] |] eqn:Hctx;
    [destruct (html_css h) as [css |] eqn:Hcss | |]; cbn;
    intros Hc; try discriminate; injection Hc as <-; cbn;
    rewrite ?Hcss; reflexivity.
Qed.

(** X7: an option that lists only an [-inline] tag of stylesheets enables
    a feature exactly at the inline positions of [syntaxInfo]: in an HTML
    context with a nested CSS context, and neither in a stylesheet
    document nor in a plain CSS context. *)
Theorem inline_tag_gates_inline_positions
        (state : EditorState) (ctx : ContextArg) (tag : string) :
  tag = "css-inline" \/ tag = "stylesheet-inline" ->
  (enabledForSyntax (EnableList [tag]) (syntaxInfo getContext state ctx) = true
   <-> exists h css,
       resolveContext getContext state ctx = Some (HTML h) /\
       html_css h = Some css).
Proof.
  intros Htag. unfold syntaxInfo.
  destruct (resolveContext getContext state ctx) as [[h | c] |] eqn:Hctx;
    [destruct (html_css h) as [css |] eqn:Hcss | |].
  - split; [intros _; now exists h, css |].
    intros _. destruct Htag as [-> | ->]; reflexivity.
  - split.
    + destruct Htag as [-> | ->];
        destruct (docSyntax_values state) as [-> | [-> | ->]];
        cbn; discriminate.
    + intros (h' & css & Hh & Hcss'). injection Hh as <-. congruence.
  - split.
    + destruct Htag as [-> | ->]; cbn; discriminate.
    + intros (h' & css & Hh & _). discriminate.
  - split.
    + destruct Htag as [-> | ->];
        destruct (docSyntax_values state) as [-> | [-> | ->]];
        cbn; discriminate.
    + intros (h' & css & Hh & _). discriminate.
Qed.

End SyntaxInfoInvariants.

Lemma syntaxInfo_syntax_and_type_witness :
  si_type (syntaxInfo (fun _ _ => Some (CSS sample_css_context))
                      sample_state (ArgPos 3)) = stylesheet.
Proof.
  apply (proj1 (proj2 (syntaxInfo_syntax_and_type
                         (fun _ _ => Some (CSS sample_css_context))
                         sample_state (ArgPos 3)))).
  reflexivity.
Defined.

Lemma syntaxInfo_inline_witness :
  exists css,
    si_context (syntaxInfo (fun _ _ => None) sample_state
                           (ArgContext (HTML sample_html_context)))
    = Some (CSS css).
Proof.
  apply (proj1 (proj2 (proj2 (syntaxInfo_inline (fun _ _ => None) sample_state
                                (ArgContext (HTML sample_html_context)))))).
  reflexivity.
Defined.

Lemma syntaxInfo_again_witness :
  syntaxInfo (fun _ _ => None) sample_state (ArgContext (CSS sample_css_context))
  = {| si_type := stylesheet;
       si_syntax := Some "css";
       si_inline := None;
       si_context := Some (CSS sample_css_context) |}.
Proof.
  apply (syntaxInfo_again (fun _ _ => None) sample_state
           (ArgContext (HTML sample_html_context)) (CSS sample_css_context)).
  reflexivity.
Defined.

Lemma inline_tag_gates_inline_positions_witness :
  enabledForSyntax (EnableList ["css-inline"])
    (syntaxInfo (fun _ _ => Some (HTML sample_html_context)) sample_state
       (ArgPos 7)) = true.
Proof.
  apply (proj2 (inline_tag_gates_inline_positions
                  (fun _ _ => Some (HTML sample_html_context)) sample_state
                  (ArgPos 7) "css-inline" (or_introl eq_refl))).
  exists sample_html_context, sample_css_context. split; reflexivity.
Defined.

(** ** [enabledForSyntax] and the option list *)

Lemma includesValue_incl (tags tags' : list string) (v : JS.value) :
  incl tags tags' ->
  JS.includesValue tags v = true -> JS.includesValue tags' v = true.
Proof.
  intros Hincl. destruct v as [s |]; simpl; [| discriminate].
  rewrite !includes_In. apply Hincl.
Qed.

(** X8: adding tags to an option list never disables a feature, and the
    empty list enables it nowhere. *)
Theorem enabledForSyntax_monotone (tags tags' : list string) (info : SyntaxInfo) :
  enabledForSyntax (EnableList []) info = false /\
  (incl tags tags' ->
   enabledForSyntax (EnableList tags) info = true ->
   enabledForSyntax (EnableList tags') info = true).
Proof.
  split.
  - unfold enabledForSyntax, candidates.
    destruct (si_inline info) as [[|] |], (si_syntax info); reflexivity.
  - intros Hincl. unfold enabledForSyntax. rewrite !existsb_exists.
    intros (c & Hc & Hin). exists c. split; [exact Hc |].
    now apply (includesValue_incl tags tags').
Qed.

Lemma enabledForSyntax_monotone_witness :
  enabledForSyntax (EnableList ["html"; "css"])
    {| si_type := stylesheet; si_syntax := Some "css";
       si_inline := None; si_context := None |} = true.
Proof.
  apply (proj2 (enabledForSyntax_monotone ["css"] ["html"; "css"]
                  {| si_type := stylesheet; si_syntax := Some "css";
                     si_inline := None; si_context := None |})).
  - intros x [<- | []]. simpl. tauto.
  - reflexivity.
Defined.

(** X9: an option that enables a feature at a position also enables it at
    the same position taken as inline: the inline tags are added to the
    candidates, none is removed. *)
Theorem enabledForSyntax_inline_keeps (opt : EnableForSyntax) (info : SyntaxInfo) :
  enabledForSyntax opt info = true ->
  enabledForSyntax opt
    {| si_type := si_type info; si_syntax := si_syntax info;
       si_inline := Some true; si_context := si_context info |} = true.
Proof.
  destruct opt as [[|] | tags]; cbn [enabledForSyntax]; auto.
  rewrite !existsb_exists. intros (c & Hc & Hin). exists c.
  split; [| exact Hin].
  unfold candidates in *. cbn [si_type si_syntax si_inline].
  destruct (si_inline info) as [[|] |]; [exact Hc | |];
    apply in_or_app; left; exact Hc.
Qed.

Lemma enabledForSyntax_inline_keeps_witness :
  enabledForSyntax (EnableList ["css"])
    {| si_type := stylesheet; si_syntax := Some "css";
       si_inline := Some true; si_context := None |} = true.
Proof.
  apply (enabledForSyntax_inline_keeps (EnableList ["css"])
           {| si_type := stylesheet; si_syntax := Some "css";
              si_inline := Some false; si_context := None |}).
  reflexivity.
Defined.

(** ** The innermost ancestor *)

Lemma last_snoc {A : Type} (outer : list A) (x : A) :
  last (outer ++ [x]) = Some x.
Proof.
  induction outer as [| y rest IH]; [reflexivity |].
  cbn [app last]. destruct (rest ++ [x]) eqn:Happ; [| exact IH].
  now destruct rest.
Qed.

Lemma last_none {A : Type} (arr : list A) :
  last arr = None <-> arr = [].
Proof.
  split; [| now intros ->].
  induction arr as [| y rest IH]; [reflexivity |].
  cbn [last]. destruct rest; [discriminate |].
  intros H. now specialize (IH H).
Qed.

Lemma last_In {A : Type} (arr : list A) (x : A) :
  last arr = Some x -> exists outer, arr = outer ++ [x].
Proof.
  induction arr as [| y rest IH]; [discriminate |].
  cbn [last]. destruct rest as [| z rest'].
  - intros H. injection H as <-. now exists [].
  - intros H. destruct (IH H) as (outer & ->). now exists (y :: outer).
Qed.

(** X10: the scope of a stylesheet context has no attributes, and its name
    is one of the markers [@@property], [@@global], [@@section] or the
    name of the innermost ancestor under a property value; the marker
    [@@value] is never produced by the function itself. *)
Theorem stylesheet_scope_names (ctx : CSSContext) :
  let result := getStylesheetAbbreviationContext ctx in
  ac_attributes result = None /\
  (ac_name result = "@@property" \/
   ac_name result = "@@global" \/
   ac_name result = "@@section" \/
   exists current parent,
     css_current ctx = Some current /\
     tok_type current = PropertyValue /\
     last (css_ancestors ctx) = Some parent /\
     ac_name result = an_name parent) /\
  (ac_name result = scopeName ScopeValue ->
   exists parent,
     last (css_ancestors ctx) = Some parent /\ an_name parent = "@@value").
Proof.
  intros result. subst result. unfold getStylesheetAbbreviationContext.
  destruct (css_inline ctx) as [[|] |];
    try (cbn; repeat split; auto; discriminate);
    destruct (css_current ctx) as [current |];
    try (cbn; repeat split; auto; discriminate);
    destruct (tok_type current) eqn:Htype,
             (last (css_ancestors ctx)) as [parent |];
    cbn; repeat split; auto; try discriminate;
    try (right; right; right; exists current, parent; auto);
    intros Hname; exists parent; auto.
Qed.

Lemma stylesheet_scope_names_witness :
  exists parent,
    last (css_ancestors
            {| css_ancestors := [ {| an_name := "@@value"; an_range := (0, 9)%Z |} ];
               css_inline := None;
               css_current := Some {| tok_type := PropertyValue;
                                      tok_range := (3, 4)%Z |} |})
    = Some parent /\ an_name parent = "@@value".
Proof.
  apply (proj2 (proj2 (stylesheet_scope_names
           {| css_ancestors := [ {| an_name := "@@value"; an_range := (0, 9)%Z |} ];
              css_inline := None;
              css_current := Some {| tok_type := PropertyValue;
                                     tok_range := (3, 4)%Z |} |}))).
  reflexivity.
Defined.

(** X11: the three functions that derive a context read the innermost
    ancestor only: ancestors further out change nothing, and the embedded
    style syntax and the markup context do not depend on a nested CSS
    context. *)
Theorem innermost_ancestor_only
        (attributes : string -> string -> list AttributeToken)
        (attributeValue : AttributeToken -> JS.value)
        (getTagAttributes : EditorState -> SyntaxNode -> AttributeMap)
        (code : string) (state : EditorState)
        (outer : list AncestorNode) (parent : AncestorNode)
        (css : option CSSContext) (inline : option bool)
        (current : option CSSToken) :
  getEmbeddedStyleSyntax attributes attributeValue code
    {| html_ancestors := outer ++ [parent]; html_css := css |}
  = getEmbeddedStyleSyntax attributes attributeValue code
      {| html_ancestors := [parent]; html_css := None |}
  /\ getMarkupAbbreviationContext getTagAttributes state
       {| html_ancestors := outer ++ [parent]; html_css := css |}
     = getMarkupAbbreviationContext getTagAttributes state
         {| html_ancestors := [parent]; html_css := None |}
  /\ getStylesheetAbbreviationContext
       {| css_ancestors := outer ++ [parent];
          css_inline := inline; css_current := current |}
     = getStylesheetAbbreviationContext
         {| css_ancestors := [parent];
            css_inline := inline; css_current := current |}.
Proof.
  unfold getEmbeddedStyleSyntax, getMarkupAbbreviationContext,
    getStylesheetAbbreviationContext.
  cbn [html_ancestors css_ancestors css_inline css_current].
  rewrite (last_snoc outer parent). repeat split; reflexivity.
Qed.

(** ** The way to the open tag *)

Lemma findOpenTag_sound (node tag : SyntaxNode) :
  findOpenTag node = Some tag ->
  In tag (parentChain node) /\ node_name tag = "OpenTag".
Proof.
  induction node as [name from to | name from to p IH] using SyntaxNode_parent_ind;
    cbn [findOpenTag parentChain];
    destruct (name =? "OpenTag") eqn:Hname; cbn [negb];
    intros H; try discriminate.
  - injection H as <-. apply String.eqb_eq in Hname. split; [now left | exact Hname].
  - injection H as <-. apply String.eqb_eq in Hname. split; [now left | exact Hname].
  - destruct (IH H) as [Hin Htag]. split; [now right | exact Htag].
Qed.

Lemma findOpenTag_none_iff (node : SyntaxNode) :
  findOpenTag node = None <->
  Forall (fun n => node_name n <> "OpenTag") (parentChain node).
Proof.
  split; [| apply findOpenTag_none].
  induction node as [name from to | name from to p IH] using SyntaxNode_parent_ind;
    cbn [findOpenTag parentChain];
    destruct (name =? "OpenTag") eqn:Hname; cbn [negb];
    intros H; try discriminate; apply String.eqb_neq in Hname;
    constructor; auto.
Qed.

Section MarkupContextShape.

Variable getTagAttributes : EditorState -> SyntaxNode -> AttributeMap.

(** X12: [getMarkupAbbreviationContext] gives nothing exactly when the
    HTML context has no ancestor.  A context it gives has the innermost
    ancestor's name and always has attributes: the empty mapping when the
    way from the resolved node to the root holds no node named [OpenTag],
    and otherwise those of a node named [OpenTag] on that way. *)
Theorem markup_context_shape (state : EditorState) (ctx : HTMLContext) :
  let result := getMarkupAbbreviationContext getTagAttributes state ctx in
  (result = None <-> html_ancestors ctx = []) /\
  (forall r,
      result = Some r ->
      exists parent,
        last (html_ancestors ctx) = Some parent /\
        ac_name r = an_name parent /\
        let way :=
          parentChain (resolve (syntaxTree state) (fst (an_range parent)) 1) in
        ((Forall (fun n => node_name n <> "OpenTag") way /\
          ac_attributes r = Some []) \/
         (exists tag,
             In tag way /\ node_name tag = "OpenTag" /\
             ac_attributes r = Some (getTagAttributes state tag)))).
Proof.
  intros result. subst result. unfold getMarkupAbbreviationContext. split.
  - rewrite <- last_none.
    destruct (last (html_ancestors ctx)); split; congruence.
  - intros r. destruct (last (html_ancestors ctx)) as [parent |];
      [| discriminate].
    intros Hr. injection Hr as <-. exists parent.
    split; [reflexivity |]. split; [reflexivity |]. cbv zeta.
    destruct (findOpenTag (resolve (syntaxTree state) (fst (an_range parent)) 1))
      as [tag |] eqn:Hfind.
    + right. exists tag. destruct (findOpenTag_sound _ _ Hfind). auto.
    + left. split; [now apply findOpenTag_none_iff | reflexivity].
Qed.

End MarkupContextShape.

Lemma markup_context_shape_witness :
  exists parent,
    last (html_ancestors sample_style_context) = Some parent /\
    ac_name {| ac_name := "style";
               ac_attributes := Some [("type", Some "text/scss")] |}
    = an_name parent /\
    let way :=
      parentChain (resolve (syntaxTree sample_state) (fst (an_range parent)) 1) in
    ((Forall (fun n => node_name n <> "OpenTag") way /\
      ac_attributes {| ac_name := "style";
                       ac_attributes := Some [("type", Some "text/scss")] |}
      = Some []) \/
     (exists tag,
         In tag way /\ node_name tag = "OpenTag" /\
         ac_attributes {| ac_name := "style";
                          ac_attributes := Some [("type", Some "text/scss")] |}
         = Some (sample_tag_attributes sample_state tag))).
Proof.
  apply (proj2 (markup_context_shape sample_tag_attributes sample_state
                  sample_style_context)).
  reflexivity.
Defined.

(** * Tab stops of an expanded snippet *)

(** ** Characters and slices *)

Lemma charAt_start (s : ustring) (i : nat) (c : N) :
  nth_error s i = Some c ->
  ustring_eqb (charAt s i) tabStopStart = N.eqb c 0xFFF0.
Proof.
  intros H. unfold charAt. rewrite H. cbn. apply andb_true_r.
Qed.

Lemma charAt_end (s : ustring) (i : nat) (c : N) :
  nth_error s i = Some c ->
  ustring_eqb (charAt s i) tabStopEnd = N.eqb c 0xFFF1.
Proof.
  intros H. unfold charAt. rewrite H. cbn. apply andb_true_r.
Qed.

Lemma skipn_nth_error {A : Type} (s : list A) (i : nat) (c : A) :
  nth_error s i = Some c -> skipn i s = c :: skipn (S i) s.
Proof.
  revert i. induction s as [| x s IH]; intros [| i] H; try discriminate.
  - now injection H as ->.
  - cbn in H. now apply IH.
Qed.

Lemma firstn_nth_error {A : Type} (s : list A) (n : nat) (c : A) :
  nth_error s n = Some c -> firstn (S n) s = firstn n s ++ [c].
Proof.
  revert n. induction s as [| x s IH]; intros [| n] H; try discriminate.
  - now injection H as ->.
  - cbn in H. cbn [firstn app]. f_equal. now apply IH.
Qed.

Lemma uslice_next (s : ustring) (offset i : nat) (c : N) :
  offset <= i -> nth_error s i = Some c ->
  uslice s offset (S i) = uslice s offset i ++ [c].
Proof.
  intros Hle H. unfold uslice.
  replace (S i - offset) with (S (i - offset)) by lia.
  apply firstn_nth_error. rewrite nth_error_skipn.
  now replace (offset + (i - offset)) with i by lia.
Qed.

Lemma uslice_empty (s : ustring) (i : nat) : uslice s i i = [].
Proof. unfold uslice. now rewrite Nat.sub_diag. Qed.

Lemma uslice_to_end (s : ustring) (offset : nat) :
  uslice s offset (List.length s) = usliceFrom s offset.
Proof.
  unfold uslice, usliceFrom. apply firstn_all2. now rewrite length_skipn.
Qed.

(** ** The loop and the scan of the characters *)

Lemma scanLoop_scanChars (s : ustring) (base : Z) (fuel : nat) :
  forall st,
    sc_offset st <= sc_i st <= List.length s ->
    List.length s - sc_i st <= fuel ->
    let st' := scanLoop fuel s base st in
    sc_i st' = List.length s /\
    (sc_ranges st', sc_result st' ++ usliceFrom s (sc_offset st'))
    = scanChars base (skipn (sc_i st) s) (sc_ranges st)
                (sc_result st ++ uslice s (sc_offset st) (sc_i st))
                (sc_sel st).
Proof.
  assert (forall st,
             sc_offset st <= sc_i st <= List.length s ->
             List.length s <= sc_i st ->
             sc_i st = List.length s /\
             (sc_ranges st, sc_result st ++ usliceFrom s (sc_offset st))
             = scanChars base (skipn (sc_i st) s) (sc_ranges st)
                         (sc_result st ++ uslice s (sc_offset st) (sc_i st))
                         (sc_sel st)) as Hdone.
  { intros st Hb Hend. assert (sc_i st = List.length s) as Hi by lia.
    split; [exact Hi |]. rewrite Hi, skipn_all, uslice_to_end. reflexivity. }
  induction fuel as [| fuel IH]; intros st Hb Hfuel; cbn [scanLoop].
  - apply Hdone; [exact Hb | lia].
  - destruct (Nat.ltb_spec (sc_i st) (List.length s)) as [Hlt | Hge];
      [| now apply Hdone].
    destruct (nth_error s (sc_i st)) as [c |] eqn:Hc;
      [| apply nth_error_None in Hc; lia].
    rewrite (skipn_nth_error s (sc_i st) c Hc). cbn [scanChars].
    unfold scanStep.
    rewrite (charAt_start s (sc_i st) c Hc), (charAt_end s (sc_i st) c Hc).
    replace (S (sc_i st) - 1) with (sc_i st) by lia.
    destruct (N.eqb c 0xFFF0) eqn:Hstart; cbn [orb].
    + match goal with
      | |- context [scanLoop fuel s base ?st1] =>
          destruct (IH st1) as [Hi Heq]; cbn [sc_i sc_offset]; [lia | lia |]
      end.
      split; [exact Hi |]. rewrite Heq. cbn [sc_i sc_offset sc_ranges sc_result sc_sel].
      now rewrite uslice_empty, app_nil_r.
    + destruct (N.eqb c 0xFFF1) eqn:Hend.
      * destruct (sc_sel st) as [k |];
          match goal with
          | |- context [scanLoop fuel s base ?st1] =>
              destruct (IH st1) as [Hi Heq]; cbn [sc_i sc_offset]; [lia | lia |]
          end;
          (split; [exact Hi |]); rewrite Heq; cbn [sc_i sc_offset sc_ranges sc_result sc_sel];
          now rewrite uslice_empty, app_nil_r.
      * match goal with
        | |- context [scanLoop fuel s base ?st1] =>
            destruct (IH st1) as [Hi Heq]; cbn [sc_i sc_offset]; [lia | lia |]
        end.
        split; [exact Hi |]. rewrite Heq. cbn [sc_i sc_offset sc_ranges sc_result sc_sel].
        now rewrite (uslice_next s _ _ c (proj1 Hb) Hc), app_assoc.
Qed.

Lemma getSelectionsFromSnippet_scanChars (s : ustring) (base : option Z) :
  getSelectionsFromSnippet s base
  = scanChars (match base with Some b => b | None => 0%Z end) s [] [] None.
Proof.
  unfold getSelectionsFromSnippet.
  destruct (scanLoop_scanChars s (match base with Some b => b | None => 0%Z end)
              (List.length s) scanInit) as [_ Heq]; cbn; try lia.
  exact Heq.
Qed.

(** ** What the scan keeps *)

Lemma setEnd_length (k : nat) (v : Z) (ranges : list TextRange) :
  List.length (setEnd k v ranges) = List.length ranges.
Proof.
  revert k. induction ranges as [| [a b] rest IH]; intros [| k]; cbn;
    try reflexivity. now rewrite IH.
Qed.

Lemma setEnd_last (l : list TextRange) (a b v : Z) :
  setEnd (List.length l) v (l ++ [(a, b)]) = l ++ [(a, v)].
Proof.
  induction l as [| [x y] l IH]; cbn; [reflexivity |]. now rewrite IH.
Qed.

Lemma snoc_of_length {A : Type} (l : list A) (k : nat) :
  S k = List.length l -> exists l' x, l = l' ++ [x] /\ k = List.length l'.
Proof.
  intros Hlen. destruct (exists_last (l := l)) as (l' & x & ->).
  - intros ->. discriminate.
  - exists l', x. split; [reflexivity |].
    rewrite length_app in Hlen. cbn in Hlen. lia.
Qed.

Lemma StronglySorted_snoc {A : Type} (R : A -> A -> Prop) (l : list A) (x : A) :
  StronglySorted R (l ++ [x]) <->
  StronglySorted R l /\ Forall (fun y => R y x) l.
Proof.
  induction l as [| y l IH]; cbn.
  - split; [intros _; split; constructor | intros _; repeat constructor].
  - split.
    + intros H. apply StronglySorted_inv in H. destruct H as [Hs Hall].
      apply IH in Hs. destruct Hs as [Hs Hx].
      apply Forall_app in Hall. destruct Hall as [Hall Hyx].
      split; [now constructor |]. constructor; [| exact Hx].
      now inversion Hyx.
    + intros [Hs Hall]. apply StronglySorted_inv in Hs.
      destruct Hs as [Hs Hy]. inversion Hall as [| ? ? Hyx Hall']; subst.
      constructor; [apply IH; now split |].
      apply Forall_app. split; [exact Hy | now constructor].
Qed.

Lemma scanChars_text (base : Z) (chars : ustring) :
  forall ranges out sel,
    snd (scanChars base chars ranges out sel)
    = out ++ filter (fun c => negb (isTabStop c)) chars.
Proof.
  induction chars as [| c rest IH]; intros ranges out sel; cbn [scanChars filter].
  - now rewrite app_nil_r.
  - unfold isTabStop.
    destruct (N.eqb c 0xFFF0); cbn [orb negb]; [apply IH |].
    destruct (N.eqb c 0xFFF1); cbn [negb].
    + destruct sel; apply IH.
    + rewrite IH, <- app_assoc. reflexivity.
Qed.

Lemma scanChars_count (base : Z) (chars : ustring) :
  forall ranges out sel,
    List.length (fst (scanChars base chars ranges out sel))
    = List.length ranges + List.length (filter (N.eqb 0xFFF0) chars).
Proof.
  induction chars as [| c rest IH]; intros ranges out sel; cbn [scanChars filter].
  - cbn. lia.
  - rewrite (N.eqb_sym 0xFFF0 c).
    destruct (N.eqb c 0xFFF0).
    + rewrite IH, length_app. cbn. lia.
    + destruct (N.eqb c 0xFFF1); [| apply IH].
      destruct sel; rewrite IH, ?setEnd_length; reflexivity.
Qed.

Lemma scanChars_plain (base : Z) (chars rest : ustring) :
  Forall (fun c => isTabStop c = false) chars ->
  forall ranges out sel,
    scanChars base (chars ++ rest) ranges out sel
    = scanChars base rest ranges (out ++ chars) sel.
Proof.
  induction 1 as [| c chars Hc _ IH]; intros ranges out sel; cbn [app scanChars].
  - now rewrite app_nil_r.
  - unfold isTabStop in Hc. apply orb_false_iff in Hc. destruct Hc as [-> ->].
    rewrite IH, <- app_assoc. reflexivity.
Qed.

Lemma rangeWithin_longer (base : Z) (len len' : nat) (r : TextRange) :
  len <= len' -> rangeWithin base len r -> rangeWithin base len' r.
Proof. unfold rangeWithin. lia. Qed.

Lemma scanChars_ranges (base : Z) (chars : ustring) :
  forall ranges out sel,
    Forall (rangeWithin base (List.length out)) ranges ->
    StronglySorted rangeBefore ranges ->
    (forall k, sel = Some k -> S k = List.length ranges) ->
    let r := scanChars base chars ranges out sel in
    Forall (rangeWithin base (List.length (snd r))) (fst r) /\
    StronglySorted rangeBefore (fst r).
Proof.
  induction chars as [| c rest IH]; intros ranges out sel Hin Hsorted Hsel;
    cbn [scanChars].
  - now split.
  - destruct (N.eqb c 0xFFF0).
    + apply IH.
      * apply Forall_app. split; [exact Hin |].
        repeat constructor; cbn; lia.
      * apply StronglySorted_snoc. split; [exact Hsorted |].
        eapply Forall_impl; [| exact Hin].
        intros r (_ & _ & Hr). unfold rangeBefore. cbn. exact Hr.
      * intros k Hk. injection Hk as <-. rewrite length_app. cbn. lia.
    + destruct (N.eqb c 0xFFF1).
      * destruct sel as [k |]; [| apply IH; [exact Hin | exact Hsorted | discriminate]].
        destruct (snoc_of_length ranges k (Hsel k eq_refl)) as (l & [a b] & -> & ->).
        rewrite setEnd_last.
        apply Forall_app in Hin. destruct Hin as [Hl Hab].
        apply StronglySorted_snoc in Hsorted. destruct Hsorted as [Hs Hbefore].
        apply IH.
        -- apply Forall_app. split; [exact Hl |].
           inversion Hab as [| ? ? (Ha & Hb & Hc) _]; subst. cbn in *.
           repeat constructor; cbn; lia.
        -- apply StronglySorted_snoc. split; [exact Hs |].
           eapply Forall_impl; [| exact Hbefore]. intros r Hr. exact Hr.
        -- discriminate.
      * apply IH; [| exact Hsorted | exact Hsel].
        eapply Forall_impl; [| exact Hin]. intros r.
        apply rangeWithin_longer. rewrite length_app. lia.
Qed.

Lemma setEnd_shift (d : Z) (k : nat) (v : Z) (ranges : list TextRange) :
  setEnd k (v + d) (map (shiftRange d) ranges)
  = map (shiftRange d) (setEnd k v ranges).
Proof.
  revert k. induction ranges as [| [a b] rest IH]; intros [| k]; cbn;
    try reflexivity. now rewrite IH.
Qed.

Lemma scanChars_shift (base d : Z) (chars : ustring) :
  forall ranges out sel,
    scanChars (base + d) chars (map (shiftRange d) ranges) out sel
    = (map (shiftRange d) (fst (scanChars base chars ranges out sel)),
       snd (scanChars base chars ranges out sel)).
Proof.
  induction chars as [| c rest IH]; intros ranges out sel; cbn [scanChars].
  - reflexivity.
  - replace (base + d + Z.of_nat (List.length out))%Z
      with (base + Z.of_nat (List.length out) + d)%Z by lia.
    destruct (N.eqb c 0xFFF0).
    + rewrite <- IH, map_app, length_map. reflexivity.
    + destruct (N.eqb c 0xFFF1); [| apply IH].
      destruct sel as [k |]; [| apply IH].
      rewrite <- IH, <- setEnd_shift. reflexivity.
Qed.

(** ** [getSelectionsFromSnippet] *)

Lemma getSelectionsFromSnippet_scan (s : ustring) (base : option Z) :
  getSelectionsFromSnippet s base = scanChars (defaultBase base) s [] [] None.
Proof. apply getSelectionsFromSnippet_scanChars. Qed.

Lemma filter_plain (s : ustring) :
  Forall (fun c => isTabStop c = false) (filter (fun c => negb (isTabStop c)) s).
Proof.
  apply Forall_forall. intros c Hc. apply filter_In in Hc.
  destruct Hc as [_ Hc]. now apply negb_true_iff in Hc.
Qed.

(** X13: the loop of [getSelectionsFromSnippet] ends with [i] at the end
    of the snippet within as many rounds as the snippet has characters,
    and the text it returns is the snippet with every tab stop marker
    removed and every other character kept in order. *)
Theorem getSelectionsFromSnippet_text (s : ustring) (base : option Z) :
  sc_i (scanLoop (List.length s) s (defaultBase base) scanInit) = List.length s /\
  snd (getSelectionsFromSnippet s base)
  = filter (fun c => negb (isTabStop c)) s /\
  Forall (fun c => isTabStop c = false) (snd (getSelectionsFromSnippet s base)).
Proof.
  assert (snd (getSelectionsFromSnippet s base)
          = filter (fun c => negb (isTabStop c)) s) as Htext.
  { rewrite getSelectionsFromSnippet_scan. apply scanChars_text. }
  split; [| split; [exact Htext | rewrite Htext; apply filter_plain]].
  apply (scanLoop_scanChars s (defaultBase base) (List.length s) scanInit);
    cbn; lia.
Qed.

(** X14: [getSelectionsFromSnippet] returns one range for each start
    marker of the snippet; an end marker never adds a range. *)
Theorem getSelectionsFromSnippet_count (s : ustring) (base : option Z) :
  List.length (fst (getSelectionsFromSnippet s base))
  = List.length (filter (N.eqb 0xFFF0) s).
Proof.
  rewrite getSelectionsFromSnippet_scan. apply scanChars_count.
Qed.

(** X15: every range [getSelectionsFromSnippet] returns lies in the
    returned text placed at [base]: [base <= from <= to <= base + length]. *)
Theorem getSelectionsFromSnippet_within (s : ustring) (base : option Z) :
  Forall (rangeWithin (defaultBase base)
            (List.length (snd (getSelectionsFromSnippet s base))))
         (fst (getSelectionsFromSnippet s base)).
Proof.
  rewrite getSelectionsFromSnippet_scan.
  apply (scanChars_ranges (defaultBase base) s [] [] None);
    [constructor | constructor | discriminate].
Qed.

(** X16: the ranges come in document order and do not overlap: each range
    ends at or before the start of every later one. *)
Theorem getSelectionsFromSnippet_ordered (s : ustring) (base : option Z) :
  StronglySorted rangeBefore (fst (getSelectionsFromSnippet s base)).
Proof.
  rewrite getSelectionsFromSnippet_scan.
  apply (scanChars_ranges (defaultBase base) s [] [] None);
    [constructor | constructor | discriminate].
Qed.

(** X17: the insertion point only moves the ranges: with [base] they are
    the ranges for the default [0] moved by [base], and the text is the
    same. *)
Theorem getSelectionsFromSnippet_base (s : ustring) (base : Z) :
  getSelectionsFromSnippet s (Some base)
  = (map (shiftRange base) (fst (getSelectionsFromSnippet s None)),
     snd (getSelectionsFromSnippet s None)).
Proof.
  rewrite !getSelectionsFromSnippet_scan. cbn [defaultBase].
  apply (scanChars_shift 0 base s [] [] None).
Qed.

(** X18: a snippet without tab stop markers is returned as it is with no
    range; so scanning the text of a result once more changes nothing. *)
Theorem getSelectionsFromSnippet_plain (s : ustring) (base base' : option Z) :
  (Forall (fun c => isTabStop c = false) s ->
   getSelectionsFromSnippet s base = ([], s)) /\
  getSelectionsFromSnippet (snd (getSelectionsFromSnippet s base)) base'
  = ([], snd (getSelectionsFromSnippet s base)).
Proof.
  assert (forall t b, Forall (fun c => isTabStop c = false) t ->
                      getSelectionsFromSnippet t b = ([], t)) as Hplain.
  { intros t b Ht. rewrite getSelectionsFromSnippet_scan.
    rewrite <- (app_nil_r t) at 1. now rewrite scanChars_plain. }
  split; [apply Hplain |].
  apply Hplain. rewrite getSelectionsFromSnippet_scan, scanChars_text.
  apply filter_plain.
Qed.

Lemma getSelectionsFromSnippet_plain_witness :
  getSelectionsFromSnippet [100; 105; 118]%N (Some 4%Z) = ([], [100; 105; 118]%N).
Proof.
  apply (proj1 (getSelectionsFromSnippet_plain [100; 105; 118]%N (Some 4%Z) None)).
  repeat constructor.
Defined.

Lemma scanChars_collapsed (base : Z) (chars : ustring) :
  Forall (fun c => N.eqb c 0xFFF1 = false) chars ->
  forall ranges out sel,
    Forall (fun r : TextRange => fst r = snd r) ranges ->
    Forall (fun r : TextRange => fst r = snd r)
           (fst (scanChars base chars ranges out sel)).
Proof.
  induction 1 as [| c rest Hc _ IH]; intros ranges out sel Hranges;
    cbn [scanChars]; [exact Hranges |].
  rewrite Hc. destruct (N.eqb c 0xFFF0); apply IH; [| exact Hranges].
  apply Forall_app. split; [exact Hranges | now repeat constructor].
Qed.

(** X19: in a snippet without end markers every range returned is empty:
    a tab stop that is opened and never closed is a cursor position. *)
Theorem getSelectionsFromSnippet_unclosed (s : ustring) (base : option Z) :
  Forall (fun c => N.eqb c 0xFFF1 = false) s ->
  Forall (fun r : TextRange => fst r = snd r)
         (fst (getSelectionsFromSnippet s base)).
Proof.
  intros Hs. rewrite getSelectionsFromSnippet_scan.
  now apply scanChars_collapsed.
Qed.

Lemma getSelectionsFromSnippet_unclosed_witness :
  Forall (fun r : TextRange => fst r = snd r)
         (fst (getSelectionsFromSnippet [97; 0xFFF0; 98; 0xFFF0]%N None)).
Proof.
  apply getSelectionsFromSnippet_unclosed. repeat constructor.
Defined.

(** ** The callback of [field] *)

Lemma fieldCalls_handled (calls : list (Z * ustring)) (handled : Z) :
  handled <> (-1)%Z ->
  fieldCalls handled calls
  = (map (fun c => if (fst c =? handled)%Z then markedField (snd c) else snd c)
         calls,
     handled).
Proof.
  intros Hh. induction calls as [| [index placeholder] rest IH];
    [reflexivity |].
  cbn [fieldCalls map fst snd]. unfold fieldCall.
  destruct (Z.eqb_spec handled (-1)) as [| _]; [contradiction |].
  cbn [orb]. rewrite (Z.eqb_sym index handled).
  destruct (Z.eqb_spec handled index) as [<- | Hne].
  - rewrite IH. reflexivity.
  - rewrite IH. now destruct placeholder.
Qed.

(** X20: the callback of [field] marks the fields of one index only, the
    index of its first call: from then on [handled] keeps that index,
    every call with it gets the tab stop markers, and every call with
    another index gets its placeholder without markers. *)
Theorem field_marks_first_index
        (index : Z) (placeholder : ustring) (calls : list (Z * ustring)) :
  index <> (-1)%Z ->
  fieldCalls fieldInit ((index, placeholder) :: calls)
  = (markedField placeholder
       :: map (fun c => if (fst c =? index)%Z
                        then markedField (snd c) else snd c) calls,
     index).
Proof.
  intros Hindex. cbn [fieldCalls].
  change (fieldCall fieldInit index placeholder)
    with (markedField placeholder, index).
  cbv beta iota. rewrite (fieldCalls_handled calls index Hindex). reflexivity.
Qed.

Lemma field_marks_first_index_witness :
  fieldCalls fieldInit [(1%Z, [97%N]); (2%Z, [98%N]); (1%Z, [])]
  = ([[0xFFF0; 97; 0xFFF1]%N; [98%N]; [0xFFF0%N]], 1%Z).
Proof.
  apply (field_marks_first_index 1 [97%N] [(2%Z, [98%N]); (1%Z, [])]).
  discriminate.
Defined.

Lemma scanChars_plain_all (base : Z) (chars : ustring) :
  Forall (fun c => isTabStop c = false) chars ->
  forall ranges out sel,
    scanChars base chars ranges out sel = (ranges, out ++ chars).
Proof.
  intros Hplain ranges out sel. rewrite <- (app_nil_r chars) at 1.
  now rewrite scanChars_plain.
Qed.

Lemma scanChars_start (base : Z) (rest : ustring) (ranges : list TextRange)
      (out : ustring) (sel : option nat) :
  scanChars base (tabStopStart ++ rest) ranges out sel
  = scanChars base rest
      (ranges ++ [((base + Z.of_nat (List.length out))%Z,
                   (base + Z.of_nat (List.length out))%Z)])
      out (Some (List.length ranges)).
Proof. reflexivity. Qed.

Lemma scanChars_end (base : Z) (rest : ustring) (ranges : list TextRange)
      (out : ustring) (k : nat) :
  scanChars base (tabStopEnd ++ rest) ranges out (Some k)
  = scanChars base rest
      (setEnd k (base + Z.of_nat (List.length out))%Z ranges) out None.
Proof. reflexivity. Qed.

(** X21: a field written by the callback is read back by
    [getSelectionsFromSnippet]: with the marked placeholder between two
    texts without markers, the one range returned covers the placeholder
    in the text with the markers removed. *)
Theorem field_round_trip
        (before placeholder after : ustring) (index : Z) (base : option Z) :
  Forall (fun c => isTabStop c = false) before ->
  Forall (fun c => isTabStop c = false) placeholder ->
  Forall (fun c => isTabStop c = false) after ->
  getSelectionsFromSnippet
    (before ++ fst (fieldCall fieldInit index placeholder) ++ after) base
  = ([((defaultBase base + Z.of_nat (List.length before))%Z,
       (defaultBase base + Z.of_nat (List.length before)
        + Z.of_nat (List.length placeholder))%Z)],
     before ++ placeholder ++ after).
Proof.
  intros Hbefore Hplaceholder Hafter.
  rewrite getSelectionsFromSnippet_scan.
  change (fst (fieldCall fieldInit index placeholder))
    with (markedField placeholder).
  rewrite (scanChars_plain _ before _ Hbefore). cbn [app].
  destruct placeholder as [| c placeholder]; cbn [markedField].
  - rewrite scanChars_start, (scanChars_plain_all _ after Hafter).
    cbn [app List.length]. f_equal. do 2 f_equal. lia.
  - rewrite <- !app_assoc.
    rewrite scanChars_start, (scanChars_plain _ (c :: placeholder) _ Hplaceholder).
    rewrite scanChars_end, (scanChars_plain_all _ after Hafter).
    rewrite <- app_assoc, length_app. cbn [List.length app setEnd].
    f_equal. do 2 f_equal. lia.
Qed.

Lemma field_round_trip_witness :
  getSelectionsFromSnippet [60; 97; 0xFFF0; 104; 105; 0xFFF1; 62]%N (Some 10%Z)
  = ([(12, 14)%Z], [60; 97; 104; 105; 62]%N).
Proof.
  apply (field_round_trip [60; 97]%N [104; 105]%N [62]%N 0 (Some 10%Z));
    repeat constructor.
Defined.
